(** * tanstack-ui-table: the root composer and the table context

    A shallow embedding of
    - [src/components/enhanced-table/composition-pattern/root.tsx]
      ([TableRoot]: [updateData], [memoColumns], the initial [columnOrder],
      [handleDragEnd]) and
    - [src/components/enhanced-table/table-context.tsx]
      ([useTableContext], [TableProvider]),
    together with the JavaScript array operations these functions call and
    the [arrayMove] helper of [@dnd-kit/sortable]. *)

From stdpp Require Import base list strings.
From Stdlib Require Import ZArith Lia.

Local Open Scope string_scope.
Local Open Scope list_scope.
Local Open Scope nat_scope.

(** ** JavaScript arrays

    An array whose elements are of type [A] is a list of slots; a slot is
    [Some v] for a value and [None] for [undefined] (a hole reads as
    [undefined], and a spread turns holes into [undefined]). Numbers that
    serve as positions are integers in [Z]. *)
Module Js.

Abbreviation array A := (list (option A)).

(** [arr[k]]: a read past the end yields [undefined]. *)
Definition get {A} (arr : array A) (k : nat) : option A :=
  match arr !! k with
  | Some slot => slot
  | None => None
  end.

(** [[...arr]] and [arr.slice()]: a fresh array with the same slots. *)
Definition spread {A} (arr : array A) : array A := arr.
Definition slice {A} (arr : array A) : array A := arr.

(** An array index is an integer [i] with [0 <= i < 2^32 - 1]. *)
Definition MAX_ARRAY_INDEX : Z := 2 ^ 32 - 1.

(** [arr[i] = v]. Inside the array the slot is replaced; at an array index
    past the end the array grows to length [i + 1], the slots in between
    being holes; a number that is not an array index (negative, or from
    [2^32 - 1] on) names an ordinary property, and neither the elements
    nor the length change. *)
Definition assign {A} (arr : array A) (i : Z) (v : A) : array A :=
  if (i <? 0)%Z then arr
  else if (i <? Z.of_nat (length arr))%Z then <[Z.to_nat i := Some v]> arr
  else if (i <? MAX_ARRAY_INDEX)%Z then
    arr ++ replicate (Z.to_nat i - length arr) None ++ [Some v]
  else arr.

(** [arr.indexOf(x)]: the first position holding a value strictly equal
    to [x], or [-1]. *)
Fixpoint indexOf_from {A} `{EqDecision A} (arr : array A) (x : A) (k : Z) : Z :=
  match arr with
  | [] => (-1)%Z
  | slot :: rest =>
      if decide (slot = Some x) then k else indexOf_from rest x (k + 1)
  end.

Definition indexOf {A} `{EqDecision A} (arr : array A) (x : A) : Z :=
  indexOf_from arr x 0.

(** [arr.includes(x)] on an array of values. *)
Fixpoint includes {A} `{EqDecision A} (arr : list A) (x : A) : bool :=
  match arr with
  | [] => false
  | y :: rest => if decide (y = x) then true else includes rest x
  end.

(** [arr.splice(start, deleteCount, ...items)]: the start is counted from
    the end when negative and clamped to [0 .. length]; the delete count is
    clamped to what is left. Returns the removed slots and the array after
    the call. *)
Definition splice_start (len : nat) (start : Z) : nat :=
  if (start <? 0)%Z then Z.to_nat (Z.max (Z.of_nat len + start) 0)
  else Z.to_nat (Z.min start (Z.of_nat len)).

Definition splice {A} (arr : array A) (start deleteCount : Z)
    (items : array A) : array A * array A :=
  let len := length arr in
  let actualStart := splice_start len start in
  let actualDeleteCount :=
    Z.to_nat (Z.min (Z.max deleteCount 0) (Z.of_nat (len - actualStart))) in
  (take actualDeleteCount (drop actualStart arr),
   take actualStart arr ++ items ++ drop (actualStart + actualDeleteCount) arr).

(** Truthiness of an optional boolean flag and of an optional string. *)
Definition truthy (flag : option bool) : bool :=
  match flag with
  | Some b => b
  | None => false
  end.

Definition truthy_string (s : option string) : bool :=
  match s with
  | Some v => negb (String.eqb v "")
  | None => false
  end.

End Js.

(** ** [@dnd-kit]: the drag-end event and [arrayMove]

    [root.tsx] imports [arrayMove] from [@dnd-kit/sortable], where it reads
<<
    export function arrayMove<T>(array: T[], from: number, to: number): T[] {
      const newArray = array.slice();
      newArray.splice(
        to < 0 ? newArray.length + to : to,
        0,
        newArray.splice(from, 1)[0]
      );
      return newArray;
    }
>>
    The arguments of the outer [splice] are evaluated left to right: the
    insertion position is computed on the length before the removal, and
    the removed slot is read with [[0]], which is [undefined] when nothing
    was removed. *)
Module Dnd.

(** [active] and [over] carry an [id]; [handleDragEnd] reads it as a
    string. *)
Record Item := { id : string }.

Record DragEndEvent := { active : option Item; over : option Item }.

Definition arrayMove {A} (array : Js.array A) (from to : Z) : Js.array A :=
  let newArray := Js.slice array in
  let position :=
    if (to <? 0)%Z then (Z.of_nat (length newArray) + to)%Z else to in
  let '(removed, newArray) := Js.splice newArray from 1 [] in
  let item := Js.get removed 0 in
  snd (Js.splice newArray position 0 [item]).

End Dnd.

(** ** [table-context.tsx] *)
Module TableContext.

Section WithTable.
(** [Table] is the engine instance and [Update] the row-update callback;
    both are opaque to the context. *)
Context {Table Update : Type}.

Record TableContextProps := {
  table : Table;
  updateData : Update;
  enableEditing : option bool;
  enableColumnReorder : option bool;
  columnOrder : option (Js.array string);
}.

Record Error := { message : string }.

Inductive outcome (A : Type) :=
| Throw (e : Error)
| Return (a : A).

(** The place of a component in the tree, as far as the context is
    concerned: the values of the [TableContext.Provider]s that enclose
    it, nearest first. *)
Definition scope := list TableContextProps.

(** [createContext<TableContextProps | undefined>(undefined)]. *)
Definition TableContext_default : option TableContextProps := None.

(** [useContext(TableContext)]: the value of the nearest enclosing
    provider, or the default. *)
Definition useContext (here : scope) : option TableContextProps :=
  match here with
  | [] => TableContext_default
  | value :: _ => Some value
  end.

Definition useTableContext (here : scope) : outcome TableContextProps :=
  let context := useContext here in
  match context with
  | None =>
      Throw _ {| message := "useTableContext must be used within a TableProvider" |}
  | Some context => Return _ context
  end.

(** [TableProvider]: its children render inside a provider whose value
    is built from the props. *)
Definition TableProvider (table : Table) (updateData : Update)
    (enableEditing enableColumnReorder : option bool)
    (columnOrder : option (Js.array string)) (here : scope) : scope :=
  {| table := table; updateData := updateData;
     enableEditing := enableEditing;
     enableColumnReorder := enableColumnReorder;
     columnOrder := columnOrder |} :: here.
End WithTable.

Arguments TableContextProps : clear implicits.
Arguments scope : clear implicits.
Arguments Throw {A} e.
Arguments Return {A} a.

End TableContext.

(** ** [root.tsx]: [TableRoot] *)
Module TableRoot.

Section WithData.
(** [TData] is the type of the caller's row records, [Render] that of the
    caller's header and cell renderers, [Accessor] that of the remaining
    properties a caller's column definition carries. *)
Context {TData Render Accessor : Type}.

(** The renderers of the three synthetic columns, next to the caller's. *)
Inductive Renderer :=
| Custom (r : Render)
| SelectExpandHeader
| SelectExpandCell
| SelectHeader
| SelectCell
| ExpandHeader
| ExpandCell.

Record ColumnDef := {
  id : option string;
  header : option Renderer;
  cell : option Renderer;
  enableSorting : option bool;
  enableHiding : option bool;
  accessor : option Accessor;
}.

Record TableRootProps := {
  data : Js.array TData;
  columns : list ColumnDef;
  enableSelection : option bool;
  enableExpansion : option bool;
  enableEditing : option bool;
  enableColumnReorder : option bool;
}.

(** The updater that [updateData] hands to [setTableData]. *)
Definition updateData (rowIndex : Z) (updatedData : TData)
    (prevData : Js.array TData) : Js.array TData :=
  let newData := Js.spread prevData in
  Js.assign newData rowIndex updatedData.

Definition selectExpandColumn : ColumnDef :=
  {| id := Some "select-expand";
     header := Some SelectExpandHeader;
     cell := Some SelectExpandCell;
     enableSorting := Some false;
     enableHiding := Some false;
     accessor := None |}.

Definition selectColumn : ColumnDef :=
  {| id := Some "select";
     header := Some SelectHeader;
     cell := Some SelectCell;
     enableSorting := Some false;
     enableHiding := Some false;
     accessor := None |}.

Definition expandColumn : ColumnDef :=
  {| id := Some "expand";
     header := Some ExpandHeader;
     cell := Some ExpandCell;
     enableSorting := Some false;
     enableHiding := Some false;
     accessor := None |}.

Definition memoColumns (columns : list ColumnDef)
    (enableSelection enableExpansion : option bool) : list ColumnDef :=
  let newColumns := columns in
  if Js.truthy enableSelection && Js.truthy enableExpansion then
    selectExpandColumn :: newColumns
  else if Js.truthy enableSelection && negb (Js.truthy enableExpansion) then
    selectColumn :: newColumns
  else if Js.truthy enableExpansion && negb (Js.truthy enableSelection) then
    expandColumn :: newColumns
  else newColumns.

(** The initial value of the [columnOrder] state:
    [memoColumns.map((column) => (enableColumnReorder && column.id ? column.id : ""))]. *)
Definition columnOrder_init (memoColumns : list ColumnDef)
    (enableColumnReorder : option bool) : Js.array string :=
  map (fun column =>
         if Js.truthy enableColumnReorder && Js.truthy_string (id column)
         then id column
         else Some "")
      memoColumns.

Definition reserved : list string := ["select"; "expand"; "select-expand"].

(** [handleDragEnd]: the new [columnOrder], given the current one. Where the
    guard fails [setColumnOrder] is not called and the state stays. *)
Definition handleDragEnd (event : Dnd.DragEndEvent)
    (columnOrder : Js.array string) : Js.array string :=
  match Dnd.active event, Dnd.over event with
  | Some active, Some over =>
      if bool_decide (Dnd.id active ≠ Dnd.id over)
         && negb (Js.includes reserved (Dnd.id over))
      then
        let oldIndex := Js.indexOf columnOrder (Dnd.id active) in
        let newIndex := Js.indexOf columnOrder (Dnd.id over) in
        Dnd.arrayMove columnOrder oldIndex newIndex
      else columnOrder
  | _, _ => columnOrder
  end.

(** The two state slots of [TableRoot] that its own handlers write. *)
Record State := {
  tableData : Js.array TData;
  columnOrder : Js.array string;
}.

(** The augmented column list of a [TableRoot] with the given props. *)
Definition memoColumns_of (props : TableRootProps) : list ColumnDef :=
  memoColumns (columns props) (enableSelection props) (enableExpansion props).

(** First render: [useState(data)] and the [columnOrder] initialiser. *)
Definition mount (props : TableRootProps) : State :=
  {| tableData := data props;
     columnOrder :=
       columnOrder_init (memoColumns_of props) (enableColumnReorder props) |}.

Inductive Action :=
| UpdateData (rowIndex : Z) (updatedData : TData)
| DragEnd (event : Dnd.DragEndEvent).

Definition dispatch (st : State) (a : Action) : State :=
  match a with
  | UpdateData rowIndex updatedData =>
      {| tableData := updateData rowIndex updatedData (tableData st);
         columnOrder := columnOrder st |}
  | DragEnd event =>
      {| tableData := tableData st;
         columnOrder := handleDragEnd event (columnOrder st) |}
  end.

Definition run (st : State) (actions : list Action) : State :=
  fold_left dispatch actions st.

End WithData.

Arguments Renderer : clear implicits.
Arguments ColumnDef : clear implicits.
Arguments TableRootProps : clear implicits.
Arguments State : clear implicits.
Arguments Action : clear implicits.

End TableRoot.

(** ** [root.tsx]: what [TableRoot] returns *)
Module Rendered.

Section WithData.
(** [Table] is the engine instance that [useReactTable] returns and
    [Children] the type of the [children] prop; both are opaque here. *)
Context {TData Render Accessor Table Children : Type}.

(** The [updateData] callback that goes into the context, as the updater
    it hands to [setTableData]. *)
Definition Update : Type := Z → TData → Js.array TData → Js.array TData.

Inductive CollisionDetection := closestCenter.
Inductive Modifier := restrictToHorizontalAxis.
Inductive Sensor := MouseSensor | TouchSensor | KeyboardSensor.

(** The props [TableRoot] gives to [DndContext]; [onDragEnd] is a handler
    on the [columnOrder] state. *)
Record DndContextProps := {
  collisionDetection : CollisionDetection;
  modifiers : list Modifier;
  onDragEnd : Dnd.DragEndEvent → Js.array string → Js.array string;
  sensors : list Sensor;
}.

(** The elements that occur in the tree [TableRoot] returns. *)
Inductive Element :=
| DndContext (props : DndContextProps) (child : Element)
| TableProvider (table : Table) (updateData : Update)
    (columnOrder : option (Js.array string))
    (enableEditing enableColumnReorder : option bool) (child : Element)
| div (className : string) (children : Children).

(** The [return] of [TableRoot], for the props it was called with, its
    current state, the engine instance, and its children. *)
Definition TableRoot (props : TableRoot.TableRootProps TData Render Accessor)
    (st : TableRoot.State TData) (table : Table) (children : Children)
    : Element :=
  let sensors := [MouseSensor; TouchSensor; KeyboardSensor] in
  if Js.truthy (TableRoot.enableColumnReorder props) then
    DndContext
      {| collisionDetection := closestCenter;
         modifiers := [restrictToHorizontalAxis];
         onDragEnd := TableRoot.handleDragEnd;
         sensors := sensors |}
      (TableProvider table TableRoot.updateData
         (Some (TableRoot.columnOrder st))
         (TableRoot.enableEditing props)
         (TableRoot.enableColumnReorder props)
         (div "space-y-4" children))
  else
    TableProvider table TableRoot.updateData
      (Some (TableRoot.columnOrder st))
      (TableRoot.enableEditing props)
      (TableRoot.enableColumnReorder props)
      (div "space-y-4" children).

(** The context scope in which the [children] of the innermost [div] of an
    element render, [here] being the scope of the element itself: each
    [TableProvider] on the way down adds its value. *)
Fixpoint children_scope (el : Element)
    (here : TableContext.scope Table Update) : TableContext.scope Table Update :=
  match el with
  | DndContext _ child => children_scope child here
  | TableProvider table updateData columnOrder enableEditing
      enableColumnReorder child =>
      children_scope child
        (TableContext.TableProvider table updateData enableEditing
           enableColumnReorder columnOrder here)
  | div _ _ => here
  end.

(** A drag that ends inside the element: a [DndContext] at the root calls
    its [onDragEnd]; without one no handler is called. *)
Definition drag_end (el : Element) (event : Dnd.DragEndEvent)
    (columnOrder : Js.array string) : Js.array string :=
  match el with
  | DndContext props _ => onDragEnd props event columnOrder
  | _ => columnOrder
  end.

(** One user action on a mounted [TableRoot]: a row update through the
    context's [updateData], or a drag that ends inside what it rendered. *)
Definition handle (props : TableRoot.TableRootProps TData Render Accessor)
    (table : Table) (children : Children)
    (st : TableRoot.State TData) (a : TableRoot.Action TData)
    : TableRoot.State TData :=
  match a with
  | TableRoot.UpdateData rowIndex updatedData =>
      match
        TableContext.useTableContext
          (children_scope (TableRoot props st table children) [])
      with
      | TableContext.Return context =>
          {| TableRoot.tableData :=
               TableContext.updateData context rowIndex updatedData
                 (TableRoot.tableData st);
             TableRoot.columnOrder := TableRoot.columnOrder st |}
      | TableContext.Throw _ => st
      end
  | TableRoot.DragEnd event =>
      {| TableRoot.tableData := TableRoot.tableData st;
         TableRoot.columnOrder :=
           drag_end (TableRoot props st table children) event
             (TableRoot.columnOrder st) |}
  end.

Definition session (props : TableRoot.TableRootProps TData Render Accessor)
    (table : Table) (children : Children)
    (actions : list (TableRoot.Action TData)) : TableRoot.State TData :=
  fold_left (handle props table children) actions (TableRoot.mount props).

End WithData.

Arguments Element : clear implicits.
Arguments DndContextProps : clear implicits.

End Rendered.

(** ** Vocabulary of the statements below *)
Module Said.

(** [rowIndex] names a slot that [arr[rowIndex] = v] writes: a position
    inside the array, or an array index past its end. *)
Definition writes {A} (arr : Js.array A) (rowIndex : Z) : Prop :=
  (0 ≤ rowIndex ∧
   (rowIndex < Z.of_nat (length arr) ∨ rowIndex < Js.MAX_ARRAY_INDEX))%Z.

#[global] Instance writes_dec {A} (arr : Js.array A) (rowIndex : Z) :
  Decision (writes arr rowIndex).
Proof. unfold writes. apply _. Defined.

(** The action is a drag whose source has id [s]. *)
Definition drags {TData} (s : string) (action : TableRoot.Action TData) : Prop :=
  match action with
  | TableRoot.DragEnd event =>
      match Dnd.active event with
      | Some active => Dnd.id active = s
      | None => False
      end
  | TableRoot.UpdateData _ _ => False
  end.

End Said.

(** ** A small table, for the statements that need one *)
Module Example_.

Definition column (id : string) : TableRoot.ColumnDef unit unit :=
  {| TableRoot.id := Some id; TableRoot.header := None;
     TableRoot.cell := None; TableRoot.enableSorting := None;
     TableRoot.enableHiding := None; TableRoot.accessor := None |}.

Definition accessor_column : TableRoot.ColumnDef unit unit :=
  {| TableRoot.id := None; TableRoot.header := None;
     TableRoot.cell := None; TableRoot.enableSorting := None;
     TableRoot.enableHiding := None; TableRoot.accessor := Some tt |}.

Definition props (enableColumnReorder : option bool)
    : TableRoot.TableRootProps nat unit unit :=
  {| TableRoot.data := [Some 1; Some 2];
     TableRoot.columns := [column "name"; column "age"];
     TableRoot.enableSelection := None;
     TableRoot.enableExpansion := None;
     TableRoot.enableEditing := Some true;
     TableRoot.enableColumnReorder := enableColumnReorder |}.

Definition drag (source target : string) : Dnd.DragEndEvent :=
  {| Dnd.active := Some {| Dnd.id := source |};
     Dnd.over := Some {| Dnd.id := target |} |}.

Definition actions : list (TableRoot.Action nat) :=
  [TableRoot.DragEnd (drag "age" "name"); TableRoot.UpdateData 1 7].

End Example_.

(** * Properties *)

(** ** Facts about the array operations *)
Section ArrayFacts.
Context {A : Type} `{EqDecision A}.
Implicit Types (arr : Js.array A) (x : A) (i j k : nat).

Lemma indexOf_from_find arr x (z : Z) :
  Js.indexOf_from arr x z =
    match list_find (λ slot, slot = Some x) arr with
    | Some (i, _) => (z + Z.of_nat i)%Z
    | None => (-1)%Z
    end.
Proof.
  revert z. induction arr as [|slot rest IH]; intros z; simpl; [done|].
  destruct (decide (slot = Some x)); simpl.
  - f_equal. lia.
  - rewrite IH. destruct (list_find _ rest) as [[i y]|]; simpl; lia.
Qed.

Lemma indexOf_found arr x i :
  Js.indexOf arr x = Z.of_nat i ↔
  arr !! i = Some (Some x) ∧ ∀ k, k < i → arr !! k ≠ Some (Some x).
Proof.
  unfold Js.indexOf. rewrite indexOf_from_find.
  destruct (list_find _ arr) as [[i' y]|] eqn:Hfind.
  - apply list_find_Some in Hfind as (Hi' & -> & Hmin). split.
    + intros Hz. assert (i' = i) as -> by lia. split; [done|].
      intros k Hk Hat. by apply (Hmin k (Some x)).
    + intros [Hi Hfirst]. f_equal.
      destruct (Nat.lt_trichotomy i i') as [Hlt|[->|Hgt]]; [|done|].
      * by destruct (Hmin i (Some x)).
      * by destruct (Hfirst i').
  - split; [lia|]. intros [Hi _].
    eapply list_find_None, Forall_lookup_1 in Hfind; [|exact Hi]. done.
Qed.

Lemma indexOf_absent arr x :
  Js.indexOf arr x = (-1)%Z ↔ Some x ∉ arr.
Proof.
  unfold Js.indexOf. rewrite indexOf_from_find.
  destruct (list_find _ arr) as [[i y]|] eqn:Hfind.
  - apply list_find_Some in Hfind as (Hi & -> & _). split; [lia|].
    intros Hnot. destruct Hnot. by eapply list_elem_of_lookup_2.
  - split; [|done]. intros _ Hin.
    eapply list_find_None, Forall_forall in Hfind; [|exact Hin]. done.
Qed.

Lemma indexOf_cases arr x :
  Js.indexOf arr x = (-1)%Z ∨ ∃ i, Js.indexOf arr x = Z.of_nat i ∧ i < length arr.
Proof.
  unfold Js.indexOf. rewrite indexOf_from_find.
  destruct (list_find _ arr) as [[i y]|] eqn:Hfind; [right|by left].
  apply list_find_Some in Hfind as (Hi & _ & _).
  exists i. split; [lia|]. by eapply lookup_lt_Some.
Qed.

Lemma includes_elem_of (l : list A) x : Js.includes l x = true ↔ x ∈ l.
Proof.
  induction l as [|y l IH]; simpl.
  - split; [done|]. by intros ?%elem_of_nil.
  - destruct (decide (y = x)) as [->|Hne].
    + split; [|done]. intros _. apply list_elem_of_here.
    + rewrite IH. split; [apply list_elem_of_further|].
      intros [?|?]%elem_of_cons; [congruence|done].
Qed.

End ArrayFacts.

Section MoveFacts.
Context {A : Type}.
Implicit Types (arr : Js.array A) (i j k : nat).

Lemma splice_start_index (len : nat) i :
  i ≤ len → Js.splice_start len (Z.of_nat i) = i.
Proof.
  intros Hi. unfold Js.splice_start.
  destruct (Z.ltb_spec (Z.of_nat i) 0); lia.
Qed.

Lemma splice_start_last (len : nat) :
  Js.splice_start len (-1) = len - 1.
Proof. unfold Js.splice_start. simpl. lia. Qed.

(** [arr.splice(start, 1)] where the start lands inside the array. *)
Lemma splice_remove arr (start : Z) i :
  Js.splice_start (length arr) start = i → i < length arr →
  Js.splice arr start 1 [] = (take 1 (drop i arr), delete i arr).
Proof.
  intros Hs Hi. unfold Js.splice. rewrite Hs.
  replace (Z.to_nat _) with 1 by lia.
  by rewrite delete_take_drop, Nat.add_1_r.
Qed.

(** [arr.splice(start, 0, item)]. *)
Lemma splice_insert arr (start : Z) (item : option A) :
  let s := Js.splice_start (length arr) start in
  Js.splice arr start 0 [item] = ([], take s arr ++ item :: drop s arr).
Proof.
  simpl. unfold Js.splice.
  replace (Z.to_nat _) with 0 by lia.
  by rewrite Nat.add_0_r.
Qed.

Lemma get_removed arr i :
  Js.get (take 1 (drop i arr)) 0 = Js.get arr i.
Proof.
  unfold Js.get. rewrite lookup_take_lt, lookup_drop, Nat.add_0_r by lia. done.
Qed.

(** [arrayMove] in terms of the removal start [i] and the insertion
    position. *)
Lemma arrayMove_unfold arr (from to : Z) i :
  Js.splice_start (length arr) from = i → i < length arr →
  let position :=
    if (to <? 0)%Z then (Z.of_nat (length arr) + to)%Z else to in
  let s := Js.splice_start (length arr - 1) position in
  Dnd.arrayMove arr from to =
    take s (delete i arr) ++ Js.get arr i :: drop s (delete i arr).
Proof.
  intros Hs Hi. simpl. unfold Dnd.arrayMove, Js.slice.
  rewrite (splice_remove _ _ i) by done.
  rewrite splice_insert, get_removed. simpl.
  rewrite length_delete by (by apply lookup_lt_is_Some_2).
  done.
Qed.

Lemma arrayMove_within arr i j :
  i < length arr → j < length arr →
  Dnd.arrayMove arr (Z.of_nat i) (Z.of_nat j) =
    take j (delete i arr) ++ Js.get arr i :: drop j (delete i arr).
Proof.
  intros Hi Hj.
  rewrite (arrayMove_unfold _ _ _ i) by (try apply splice_start_index; lia).
  destruct (Z.ltb_spec (Z.of_nat j) 0); [lia|].
  by rewrite splice_start_index by lia.
Qed.

Lemma arrayMove_to_end arr (from : Z) i :
  Js.splice_start (length arr) from = i → i < length arr →
  Dnd.arrayMove arr from (-1) = delete i arr ++ [Js.get arr i].
Proof.
  intros Hs Hi. rewrite (arrayMove_unfold _ _ _ i) by done. simpl.
  replace (Z.of_nat (length arr) + -1)%Z with (Z.of_nat (length arr - 1)) by lia.
  rewrite splice_start_index by lia.
  assert (length (delete i arr) = length arr - 1) as Hlen
    by (by apply length_delete, lookup_lt_is_Some_2).
  by rewrite take_ge, drop_ge by lia.
Qed.

Lemma delete_last_snoc arr :
  arr ≠ [] → delete (length arr - 1) arr ++ [Js.get arr (length arr - 1)] = arr.
Proof.
  intros Hne. destruct arr as [|slot rest _] using rev_ind; [done|].
  rewrite length_app. simpl.
  replace (length rest + 1 - 1) with (length rest + 0) by lia.
  unfold Js.get.
  rewrite delete_take_drop, take_app_length', lookup_app_r by lia.
  rewrite drop_ge by (rewrite length_app; simpl; lia).
  replace (length rest + 0 - length rest) with 0 by lia. simpl.
  by rewrite app_nil_r.
Qed.

Lemma arrayMove_length arr (from to : Z) i :
  Js.splice_start (length arr) from = i → i < length arr →
  length (Dnd.arrayMove arr from to) = length arr.
Proof.
  intros Hs Hi. rewrite (arrayMove_unfold _ _ _ i) by done.
  assert (length (delete i arr) = length arr - 1) as Hlen
    by (by apply length_delete, lookup_lt_is_Some_2).
  rewrite length_app. simpl. rewrite length_take, length_drop. lia.
Qed.

End MoveFacts.

Section RelocationFacts.
Context {A : Type}.
Implicit Types (arr : Js.array A) (i j k : nat).

(** Reading the array in which [slot] was put at position [j] of [arr]. *)
Lemma lookup_put arr (slot : option A) j k :
  j ≤ length arr →
  (take j arr ++ slot :: drop j arr) !! k =
    if decide (k < j) then arr !! k
    else if decide (k = j) then Some slot
    else arr !! (k - 1).
Proof.
  intros Hj. destruct (decide (k < j)) as [Hlt|Hge].
  - rewrite lookup_app_l by (rewrite length_take; lia).
    by rewrite lookup_take_lt.
  - rewrite lookup_app_r by (rewrite length_take; lia).
    rewrite length_take, Nat.min_l by lia.
    destruct (decide (k = j)) as [->|Hne].
    + by rewrite Nat.sub_diag.
    + destruct (k - j) as [|n] eqn:Hn; [lia|]. simpl.
      rewrite lookup_drop. f_equal. lia.
Qed.

(** Reading the array after [arrayMove] from [i] to [j], both inside. *)
Lemma lookup_arrayMove arr i j k :
  i < length arr → j < length arr →
  Dnd.arrayMove arr (Z.of_nat i) (Z.of_nat j) !! k =
    if decide (k = j) then arr !! i
    else if decide (i ≤ k < j) then arr !! (S k)
    else if decide (j < k ≤ i) then arr !! (k - 1)
    else arr !! k.
Proof.
  intros Hi Hj. rewrite arrayMove_within by done.
  assert (length (delete i arr) = length arr - 1) as Hlen
    by (by apply length_delete, lookup_lt_is_Some_2).
  rewrite lookup_put by lia.
  repeat case_decide; try lia; subst;
    try (rewrite list_lookup_delete_lt by lia);
    try (rewrite list_lookup_delete_ge by lia);
    try (f_equal; lia).
  unfold Js.get. by destruct (lookup_lt_is_Some_2 arr i Hi) as [slot ->].
Qed.

End RelocationFacts.

(** Non-membership in a list of literals. *)
Ltac not_in_literals :=
  let Hin := fresh "Hin" in
  intros Hin;
  repeat (apply elem_of_cons in Hin as [Hin|Hin]; [discriminate|]);
  by apply elem_of_nil in Hin.

(** ** The drag-end handler *)
Section DragEnd.
Implicit Types (order : Js.array string) (event : Dnd.DragEndEvent).
Implicit Types (a o : Dnd.Item) (i j k : nat).

(** When the guard of [handleDragEnd] passes, the handler is [arrayMove] at
    the two [indexOf] results. *)
Lemma handleDragEnd_reorders event order a o :
  Dnd.active event = Some a → Dnd.over event = Some o →
  Dnd.id a ≠ Dnd.id o → Dnd.id o ∉ TableRoot.reserved →
  TableRoot.handleDragEnd event order =
    Dnd.arrayMove order (Js.indexOf order (Dnd.id a))
      (Js.indexOf order (Dnd.id o)).
Proof.
  intros Ha Ho Hne Hres. unfold TableRoot.handleDragEnd. rewrite Ha, Ho.
  rewrite bool_decide_eq_true_2 by done.
  destruct (Js.includes _ _) eqn:Hinc; [|done].
  by apply includes_elem_of in Hinc.
Qed.

(** C1. A drag-end event whose source and target are present, differ, and
    whose target is not a reserved id, source and target ids standing at
    positions [i] and [j] of the column order: the handler puts the source
    id at position [j], moves the elements between the two positions by one
    slot towards [i], and leaves the others and the length as they were.
    Moving [A] onto [X] in [[X, A, Y]] gives [[A, X, Y]]. *)
Theorem handleDragEnd_moves_source_to_target :
  (∀ order event a o i j,
     Dnd.active event = Some a → Dnd.over event = Some o →
     Dnd.id a ≠ Dnd.id o → Dnd.id o ∉ TableRoot.reserved →
     Js.indexOf order (Dnd.id a) = Z.of_nat i →
     Js.indexOf order (Dnd.id o) = Z.of_nat j →
     let moved := TableRoot.handleDragEnd event order in
     length moved = length order ∧
     moved !! j = Some (Some (Dnd.id a)) ∧
     (∀ k, i ≤ k < j → moved !! k = order !! (S k)) ∧
     (∀ k, j < k ≤ i → moved !! k = order !! (k - 1)) ∧
     (∀ k, (k < i ∧ k < j) ∨ (i < k ∧ j < k) → moved !! k = order !! k)) ∧
  (∀ X A Y : string,
     A ≠ X → X ∉ TableRoot.reserved →
     TableRoot.handleDragEnd
       {| Dnd.active := Some {| Dnd.id := A |};
          Dnd.over := Some {| Dnd.id := X |} |}
       [Some X; Some A; Some Y]
     = [Some A; Some X; Some Y]).
Proof.
  split.
  - intros order event a o i j Ha Ho Hne Hres Hi Hj moved. subst moved.
    rewrite (handleDragEnd_reorders _ _ a o), Hi, Hj by done.
    apply indexOf_found in Hi as [Hi _]. apply indexOf_found in Hj as [Hj _].
    assert (i < length order) by (by eapply lookup_lt_Some).
    assert (j < length order) by (by eapply lookup_lt_Some).
    split; [by apply (arrayMove_length _ _ _ i); [apply splice_start_index; lia|]|].
    repeat split; intros; rewrite lookup_arrayMove by done;
      repeat case_decide; try lia; done.
  - intros X A Y Hne Hres.
    rewrite (handleDragEnd_reorders _ _ {| Dnd.id := A |} {| Dnd.id := X |})
      by done.
    simpl. unfold Js.indexOf. simpl.
    rewrite (decide_False (P := Some X = Some A)) by congruence.
    rewrite !decide_True by done. done.
Qed.

Lemma handleDragEnd_moves_source_to_target_witness :
  let order := [Some "name"; Some "age"; Some "email"] in
  let moved :=
    TableRoot.handleDragEnd
      {| Dnd.active := Some {| Dnd.id := "email" |};
         Dnd.over := Some {| Dnd.id := "name" |} |} order in
  length moved = length order ∧
  moved !! 0 = Some (Some "email") ∧
  (∀ k, 2 ≤ k < 0 → moved !! k = order !! (S k)) ∧
  (∀ k, 0 < k ≤ 2 → moved !! k = order !! (k - 1)) ∧
  (∀ k, (k < 2 ∧ k < 0) ∨ (2 < k ∧ 0 < k) → moved !! k = order !! k).
Proof.
  apply (proj1 handleDragEnd_moves_source_to_target
           [Some "name"; Some "age"; Some "email"] _
           {| Dnd.id := "email" |} {| Dnd.id := "name" |} 2 0);
    try reflexivity.
  - simpl. discriminate.
  - unfold TableRoot.reserved. simpl. not_in_literals.
Defined.

(** Outside C1: when the source id is not in the column order, [indexOf]
    gives [-1] for it and [splice(-1, 1)] removes the last slot, so it is
    the last element that goes to the target's position. *)
Remark handleDragEnd_source_absent order event a o j :
  Dnd.active event = Some a → Dnd.over event = Some o →
  Dnd.id o ∉ TableRoot.reserved →
  Some (Dnd.id a) ∉ order →
  Js.indexOf order (Dnd.id o) = Z.of_nat j →
  TableRoot.handleDragEnd event order =
    Dnd.arrayMove order (Z.of_nat (length order - 1)) (Z.of_nat j).
Proof.
  intros Ha Ho Hres Habs Hj.
  assert (order !! j = Some (Some (Dnd.id o))) as Hat
    by (by apply indexOf_found in Hj as [? _]).
  assert (j < length order) by (by eapply lookup_lt_Some).
  assert (Dnd.id a ≠ Dnd.id o) as Hne.
  { intros Heq. apply Habs. rewrite Heq. by eapply list_elem_of_lookup_2. }
  rewrite (handleDragEnd_reorders _ _ a o), Hj by done.
  apply indexOf_absent in Habs as ->.
  rewrite !(arrayMove_unfold _ _ _ (length order - 1));
    rewrite ?splice_start_last, ?splice_start_index; (done || lia).
Qed.

(** C2. A drag-end event with an absent endpoint, with identical source and
    target ids, or with a reserved target id leaves the column order as it
    is. *)
Theorem handleDragEnd_guard_fails_noop order event :
  (Dnd.active event = None ∨ Dnd.over event = None ∨
   ∃ a o, Dnd.active event = Some a ∧ Dnd.over event = Some o ∧
          (Dnd.id a = Dnd.id o ∨ Dnd.id o = "select" ∨ Dnd.id o = "expand"
           ∨ Dnd.id o = "select-expand")) →
  TableRoot.handleDragEnd event order = order.
Proof.
  unfold TableRoot.handleDragEnd.
  intros [-> | [Hover | (a & o & -> & -> & Hcase)]]; [done| |].
  - rewrite Hover. by destruct (Dnd.active event).
  - destruct Hcase as [Hsame|Hres].
    + by rewrite bool_decide_eq_false_2 by (intros Hne; by apply Hne).
    + assert (Js.includes TableRoot.reserved (Dnd.id o) = true) as ->.
      { apply includes_elem_of. unfold TableRoot.reserved.
        destruct Hres as [-> | [-> | ->]]; repeat constructor. }
      by rewrite andb_false_r.
Qed.

Lemma handleDragEnd_guard_fails_noop_witness :
  TableRoot.handleDragEnd
    {| Dnd.active := Some {| Dnd.id := "name" |};
       Dnd.over := Some {| Dnd.id := "select" |} |}
    [Some "select"; Some "name"; Some "age"]
  = [Some "select"; Some "name"; Some "age"].
Proof.
  apply handleDragEnd_guard_fails_noop.
  right; right. eexists _, _. split; [reflexivity|]. split; [reflexivity|].
  right; left. reflexivity.
Defined.

(** With the target id not in the column order, [indexOf] gives [-1] and
    [arrayMove] inserts at the end. *)
Lemma handleDragEnd_target_absent order event a o :
  order ≠ [] →
  Dnd.active event = Some a → Dnd.over event = Some o →
  Dnd.id o ∉ TableRoot.reserved → Some (Dnd.id o) ∉ order →
  (Some (Dnd.id a) ∉ order → TableRoot.handleDragEnd event order = order) ∧
  (∀ i, Js.indexOf order (Dnd.id a) = Z.of_nat i →
        TableRoot.handleDragEnd event order =
          delete i order ++ [Some (Dnd.id a)]).
Proof.
  intros Hne Ha Ho Hres Hout.
  assert (0 < length order) by (destruct order; [done|simpl; lia]).
  destruct (decide (Dnd.id a = Dnd.id o)) as [Hsame|Hdiff].
  - assert (TableRoot.handleDragEnd event order = order) as ->.
    { unfold TableRoot.handleDragEnd. rewrite Ha, Ho.
      by rewrite bool_decide_eq_false_2 by (intros Hn; by apply Hn). }
    split; [done|]. intros i [Hi _]%indexOf_found.
    destruct Hout. rewrite <- Hsame. by eapply list_elem_of_lookup_2.
  - rewrite (handleDragEnd_reorders _ _ a o) by done.
    apply indexOf_absent in Hout as ->. split.
    + intros ->%indexOf_absent.
      rewrite (arrayMove_to_end _ _ (length order - 1))
        by (rewrite ?splice_start_last; lia).
      by apply delete_last_snoc.
    + intros i Hi. rewrite Hi. apply indexOf_found in Hi as [Hi _].
      assert (i < length order) by (by eapply lookup_lt_Some).
      rewrite (arrayMove_to_end _ _ i) by (rewrite ?splice_start_index; lia).
      unfold Js.get. by rewrite Hi.
Qed.

(** C3, as the code has it. On a non-empty column order, a drag-end event
    with a present source and a present, non-reserved target whose id is not
    in the column order keeps the length; it leaves the column order as it
    is when the source id is not in it either, and otherwise moves the source
    element to the end. *)
Theorem handleDragEnd_unknown_target_moves_to_end order event a o :
  order ≠ [] →
  Dnd.active event = Some a → Dnd.over event = Some o →
  Dnd.id o ∉ TableRoot.reserved → Some (Dnd.id o) ∉ order →
  let moved := TableRoot.handleDragEnd event order in
  length moved = length order ∧
  (Some (Dnd.id a) ∉ order → moved = order) ∧
  (∀ i, Js.indexOf order (Dnd.id a) = Z.of_nat i →
        moved = delete i order ++ [Some (Dnd.id a)]).
Proof.
  intros Hne Ha Ho Hres Hout moved. subst moved.
  destruct (handleDragEnd_target_absent order event a o) as [Hno Hyes];
    try done.
  split; [|done].
  destruct (indexOf_cases order (Dnd.id a)) as [Habs|(i & Hi & Hlt)].
  - by rewrite Hno by (by apply indexOf_absent).
  - rewrite (Hyes i Hi), length_app, length_delete
      by (by apply lookup_lt_is_Some_2).
    simpl. lia.
Qed.

Lemma not_reserved_ghost : "ghost" ∉ TableRoot.reserved.
Proof. unfold TableRoot.reserved. not_in_literals. Qed.

Lemma not_in_order_ghost :
  Some "ghost" ∉ [Some "name"; Some "age"; Some "email"].
Proof. not_in_literals. Qed.

Lemma handleDragEnd_unknown_target_moves_to_end_witness :
  let order := [Some "name"; Some "age"; Some "email"] in
  let moved :=
    TableRoot.handleDragEnd
      {| Dnd.active := Some {| Dnd.id := "name" |};
         Dnd.over := Some {| Dnd.id := "ghost" |} |} order in
  length moved = length order ∧
  (Some "name" ∉ order → moved = order) ∧
  (∀ i, Js.indexOf order "name" = Z.of_nat i →
        moved = delete i order ++ [Some "name"]).
Proof.
  apply (handleDragEnd_unknown_target_moves_to_end
           [Some "name"; Some "age"; Some "email"] _
           {| Dnd.id := "name" |} {| Dnd.id := "ghost" |});
    [discriminate | reflexivity | reflexivity
    | exact not_reserved_ghost | exact not_in_order_ghost].
Defined.

(** C3, as stated, fails: dragging [name] onto a target that is not in the
    column order moves [name] to the end. *)
Lemma handleDragEnd_unknown_target_not_noop :
  ¬ (∀ order event a o,
       Dnd.active event = Some a → Dnd.over event = Some o →
       Dnd.id o ∉ TableRoot.reserved → Some (Dnd.id o) ∉ order →
       TableRoot.handleDragEnd event order = order).
Proof.
  intros Hnoop.
  specialize (Hnoop [Some "name"; Some "age"; Some "email"]
    {| Dnd.active := Some {| Dnd.id := "name" |};
       Dnd.over := Some {| Dnd.id := "ghost" |} |}
    {| Dnd.id := "name" |} {| Dnd.id := "ghost" |}
    eq_refl eq_refl not_reserved_ghost not_in_order_ghost).
  vm_compute in Hnoop. discriminate.
Qed.

End DragEnd.

(** ** The length of the column order *)
Section ColumnOrderLength.
Context {TData Render Accessor : Type}.
Implicit Types (props : TableRoot.TableRootProps TData Render Accessor).
Implicit Types (st : TableRoot.State TData) (order : Js.array string).

Lemma columnOrder_init_length (memo : list (TableRoot.ColumnDef Render Accessor))
    (flag : option bool) :
  length (TableRoot.columnOrder_init memo flag) = length memo.
Proof. unfold TableRoot.columnOrder_init. apply length_map. Qed.

Lemma handleDragEnd_length event order :
  order ≠ [] → length (TableRoot.handleDragEnd event order) = length order.
Proof.
  intros Hne.
  assert (0 < length order) by (destruct order; [done|simpl; lia]).
  unfold TableRoot.handleDragEnd.
  destruct (Dnd.active event) as [a|], (Dnd.over event) as [o|]; try done.
  destruct (_ && _); [|done].
  destruct (indexOf_cases order (Dnd.id a)) as [->|(i & -> & Hi)].
  - apply (arrayMove_length _ _ _ (length order - 1));
      [apply splice_start_last | lia].
  - apply (arrayMove_length _ _ _ i); [apply splice_start_index; lia | done].
Qed.

Lemma run_columnOrder_length st (actions : list (TableRoot.Action TData)) :
  TableRoot.columnOrder st ≠ [] →
  length (TableRoot.columnOrder (TableRoot.run st actions)) =
    length (TableRoot.columnOrder st).
Proof.
  revert st. induction actions as [|action actions IH]; intros st Hne; [done|].
  unfold TableRoot.run in *. simpl.
  assert (length (TableRoot.columnOrder (TableRoot.dispatch st action)) =
          length (TableRoot.columnOrder st)) as Hstep.
  { destruct action; simpl; [done|]. by apply handleDragEnd_length. }
  rewrite IH; [done|].
  intros Hnil. rewrite Hnil in Hstep. destruct (TableRoot.columnOrder st); done.
Qed.

(** C8, as the code has it. The column order starts with the length of the
    augmented column list; a drag-end event keeps the length of a non-empty
    column order; so with at least one augmented column the two lengths
    agree after any sequence of row updates and drag-end events. *)
Theorem columnOrder_length_invariant :
  (∀ props,
     length (TableRoot.columnOrder (TableRoot.mount props)) =
       length (TableRoot.memoColumns_of props)) ∧
  (∀ event order,
     order ≠ [] →
     length (TableRoot.handleDragEnd event order) = length order) ∧
  (∀ props (actions : list (TableRoot.Action TData)),
     TableRoot.memoColumns_of props ≠ [] →
     length (TableRoot.columnOrder (TableRoot.run (TableRoot.mount props) actions)) =
       length (TableRoot.memoColumns_of props)).
Proof.
  split; [|split].
  - intros props. apply columnOrder_init_length.
  - apply handleDragEnd_length.
  - intros props actions Hne. rewrite run_columnOrder_length.
    + apply columnOrder_init_length.
    + simpl. intros Hnil. apply (f_equal length) in Hnil.
      rewrite columnOrder_init_length in Hnil.
      destruct (TableRoot.memoColumns_of props); done.
Qed.

End ColumnOrderLength.

(** C8, as stated, fails on a table without columns: the column order
    starts empty, and a drag-end event that passes the guard makes it the
    one-slot array [[undefined]]. *)
Lemma columnOrder_length_grows_from_empty :
  let props : TableRoot.TableRootProps unit unit unit :=
    {| TableRoot.data := []; TableRoot.columns := [];
       TableRoot.enableSelection := None; TableRoot.enableExpansion := None;
       TableRoot.enableEditing := None;
       TableRoot.enableColumnReorder := Some true |} in
  let event :=
    {| Dnd.active := Some {| Dnd.id := "name" |};
       Dnd.over := Some {| Dnd.id := "age" |} |} in
  let st := TableRoot.run (TableRoot.mount props) [TableRoot.DragEnd event] in
  TableRoot.columnOrder (TableRoot.mount props) = [] ∧
  TableRoot.columnOrder st = [None] ∧
  length (TableRoot.columnOrder st) ≠ length (TableRoot.memoColumns_of props) ∧
  length (TableRoot.handleDragEnd event []) ≠ length (@nil (option string)).
Proof. vm_compute. repeat split; discriminate. Qed.

(** ** [updateData] *)
Section UpdateData.
Context {TData : Type}.
Implicit Types (prevData : Js.array TData) (rowIndex : Z) (r : TData).

Lemma updateData_inside prevData rowIndex r :
  (0 ≤ rowIndex < Z.of_nat (length prevData))%Z →
  TableRoot.updateData rowIndex r prevData =
    <[Z.to_nat rowIndex := Some r]> prevData.
Proof.
  intros Hin. unfold TableRoot.updateData, Js.assign, Js.spread.
  destruct (Z.ltb_spec rowIndex 0); [lia|].
  destruct (Z.ltb_spec rowIndex (Z.of_nat (length prevData))); [done|lia].
Qed.

Lemma updateData_past_end prevData rowIndex r :
  (Z.of_nat (length prevData) ≤ rowIndex < Js.MAX_ARRAY_INDEX)%Z →
  TableRoot.updateData rowIndex r prevData =
    prevData ++ replicate (Z.to_nat rowIndex - length prevData) None ++ [Some r].
Proof.
  intros Hout. unfold TableRoot.updateData, Js.assign, Js.spread.
  destruct (Z.ltb_spec rowIndex 0); [lia|].
  destruct (Z.ltb_spec rowIndex (Z.of_nat (length prevData))); [lia|].
  destruct (Z.ltb_spec rowIndex Js.MAX_ARRAY_INDEX); [done|lia].
Qed.

(** C4. With [0 <= i < N], [updateData(i, r)] gives a row set of length [N]
    that holds [r] at [i] and the original rows everywhere else. *)
Theorem updateData_replaces_row prevData rowIndex r :
  (0 ≤ rowIndex < Z.of_nat (length prevData))%Z →
  let newData := TableRoot.updateData rowIndex r prevData in
  length newData = length prevData ∧
  newData !! Z.to_nat rowIndex = Some (Some r) ∧
  ∀ k, k ≠ Z.to_nat rowIndex → newData !! k = prevData !! k.
Proof.
  intros Hin newData. subst newData. rewrite updateData_inside by done.
  split; [apply length_insert|]. split.
  - apply list_lookup_insert_eq. lia.
  - intros k Hk. by apply list_lookup_insert_ne.
Qed.

(** C10. With [i >= N] an array index, [updateData(i, r)] changes the row
    set: the result has length [i + 1], holds [r] at [i], [undefined] from
    [N] up to [i - 1], and the original rows below [N]. *)
Theorem updateData_past_end_extends prevData rowIndex r :
  (Z.of_nat (length prevData) ≤ rowIndex < Js.MAX_ARRAY_INDEX)%Z →
  let newData := TableRoot.updateData rowIndex r prevData in
  newData ≠ prevData ∧
  length newData = Z.to_nat rowIndex + 1 ∧
  newData !! Z.to_nat rowIndex = Some (Some r) ∧
  (∀ k, length prevData ≤ k < Z.to_nat rowIndex → newData !! k = Some None) ∧
  (∀ k, k < length prevData → newData !! k = prevData !! k).
Proof.
  intros Hout newData. subst newData. rewrite updateData_past_end by done.
  set (gap := Z.to_nat rowIndex - length prevData).
  assert (Z.to_nat rowIndex = length prevData + gap) as -> by lia.
  assert (length (prevData ++ replicate gap None ++ [Some r]) =
          length prevData + gap + 1) as Hlen.
  { rewrite !length_app, length_replicate. simpl. lia. }
  split; [|split; [done|split; [|split]]].
  - intros Heq. apply (f_equal length) in Heq. rewrite Hlen in Heq. lia.
  - rewrite lookup_app_r by lia.
    rewrite lookup_app_r by (rewrite length_replicate; lia).
    rewrite length_replicate.
    by replace (length prevData + gap - length prevData - gap) with 0 by lia.
  - intros k Hk. rewrite lookup_app_r by lia.
    rewrite lookup_app_l by (rewrite length_replicate; lia).
    apply lookup_replicate_2. lia.
  - intros k Hk. by rewrite lookup_app_l.
Qed.

End UpdateData.

Lemma updateData_replaces_row_witness :
  let prevData := [Some 10; Some 20; Some 30] in
  let newData := TableRoot.updateData 1 99 prevData in
  length newData = length prevData ∧
  newData !! Z.to_nat 1 = Some (Some 99) ∧
  ∀ k, k ≠ Z.to_nat 1 → newData !! k = prevData !! k.
Proof.
  apply (updateData_replaces_row [Some 10; Some 20; Some 30] 1 99).
  simpl. lia.
Defined.

Lemma updateData_past_end_extends_witness :
  let prevData := [Some 10; Some 20] in
  let newData := TableRoot.updateData 4 99 prevData in
  newData ≠ prevData ∧
  length newData = Z.to_nat 4 + 1 ∧
  newData !! Z.to_nat 4 = Some (Some 99) ∧
  (∀ k, length prevData ≤ k < Z.to_nat 4 → newData !! k = Some None) ∧
  (∀ k, k < length prevData → newData !! k = prevData !! k).
Proof.
  apply (updateData_past_end_extends [Some 10; Some 20] 4 99).
  unfold Js.MAX_ARRAY_INDEX. simpl. lia.
Defined.

(** ** Column augmentation and the initial column order *)
Section Columns.
Context {Render Accessor : Type}.
Implicit Types (columns memo : list (TableRoot.ColumnDef Render Accessor)).
Implicit Types (column : TableRoot.ColumnDef Render Accessor).
Implicit Types (enableSelection enableExpansion flag : option bool).

Lemma memoColumns_cases columns enableSelection enableExpansion :
  TableRoot.memoColumns columns enableSelection enableExpansion =
    match Js.truthy enableSelection, Js.truthy enableExpansion with
    | true, true => TableRoot.selectExpandColumn :: columns
    | true, false => TableRoot.selectColumn :: columns
    | false, true => TableRoot.expandColumn :: columns
    | false, false => columns
    end.
Proof.
  unfold TableRoot.memoColumns.
  by destruct (Js.truthy enableSelection), (Js.truthy enableExpansion).
Qed.

(** C5. The augmented list has one column more than the base list when
    selection or expansion is enabled, and as many when neither is; with
    selection alone and three base columns it has four, the first with id
    [select]. *)
Theorem memoColumns_length :
  (∀ columns enableSelection enableExpansion,
     length (TableRoot.memoColumns columns enableSelection enableExpansion) =
       length columns +
       (if Js.truthy enableSelection || Js.truthy enableExpansion
        then 1 else 0)) ∧
  (∀ c1 c2 c3 : TableRoot.ColumnDef Render Accessor,
     let memo := TableRoot.memoColumns [c1; c2; c3] (Some true) (Some false) in
     length memo = 4 ∧ TableRoot.id <$> head memo = Some (Some "select")).
Proof.
  split.
  - intros columns enableSelection enableExpansion.
    rewrite memoColumns_cases.
    destruct (Js.truthy enableSelection), (Js.truthy enableExpansion);
      simpl; lia.
  - intros c1 c2 c3. by rewrite memoColumns_cases.
Qed.

(** C6. With neither selection nor expansion enabled, the augmented list
    is the base list. *)
Theorem memoColumns_identity columns enableSelection enableExpansion :
  Js.truthy enableSelection = false → Js.truthy enableExpansion = false →
  TableRoot.memoColumns columns enableSelection enableExpansion = columns.
Proof. intros Hs He. by rewrite memoColumns_cases, Hs, He. Qed.

(** C7. The initial column order has one entry per augmented column: the
    column's id when reordering is enabled and the column declares one, the
    empty string otherwise; so with reordering not enabled every entry is
    the empty string. *)
Theorem columnOrder_init_entries :
  (∀ memo flag,
     length (TableRoot.columnOrder_init memo flag) = length memo ∧
     ∀ k column,
       memo !! k = Some column →
       TableRoot.columnOrder_init memo flag !! k =
         Some (Some (match Js.truthy flag, TableRoot.id column with
                     | true, Some declared => declared
                     | _, _ => ""
                     end))) ∧
  (∀ memo flag,
     Js.truthy flag = false →
     Forall (λ entry, entry = Some "") (TableRoot.columnOrder_init memo flag)).
Proof.
  split.
  - intros memo flag. split; [apply length_map|].
    intros k column Hk. unfold TableRoot.columnOrder_init.
    rewrite list_lookup_fmap, Hk. simpl. do 2 f_equal.
    destruct (Js.truthy flag), (TableRoot.id column) as [declared|]; simpl;
      try done.
    destruct (String.eqb_spec declared "") as [->|]; done.
  - intros memo flag Hflag. unfold TableRoot.columnOrder_init.
    apply Forall_fmap, Forall_true. intros column. simpl.
    by rewrite Hflag.
Qed.

End Columns.

Lemma memoColumns_identity_witness :
  let column : TableRoot.ColumnDef unit unit :=
    {| TableRoot.id := Some "name"; TableRoot.header := None;
       TableRoot.cell := None; TableRoot.enableSorting := None;
       TableRoot.enableHiding := None; TableRoot.accessor := Some tt |} in
  TableRoot.memoColumns [column] (Some false) None = [column].
Proof. apply memoColumns_identity; reflexivity. Defined.

(** ** The table context *)
Section ContextFacts.
Context {Table Update : Type}.
Implicit Types (here : TableContext.scope Table Update).
Implicit Types (value : TableContext.TableContextProps Table Update).

(** C9, as the code has it. [useTableContext] throws exactly when no
    provider encloses it, the message being "useTableContext must be used
    within a TableProvider"; inside a provider it returns the value of the
    nearest one, which for a [TableProvider] is the record of its props. *)
Theorem useTableContext_throws_iff_unprovided :
  (∀ here, (∃ e, TableContext.useTableContext here = TableContext.Throw e)
           ↔ here = []) ∧
  (∀ e, TableContext.useTableContext (Table := Table) (Update := Update) []
          = TableContext.Throw e →
        TableContext.message e =
          "useTableContext must be used within a TableProvider") ∧
  (∀ value here,
     TableContext.useTableContext (value :: here) = TableContext.Return value) ∧
  (∀ table updateData enableEditing enableColumnReorder columnOrder here,
     TableContext.useTableContext
       (TableContext.TableProvider table updateData enableEditing
          enableColumnReorder columnOrder here)
     = TableContext.Return
         {| TableContext.table := table;
            TableContext.updateData := updateData;
            TableContext.enableEditing := enableEditing;
            TableContext.enableColumnReorder := enableColumnReorder;
            TableContext.columnOrder := columnOrder |}).
Proof.
  repeat split.
  - intros [e He]. destruct here; [done|discriminate].
  - intros ->. by eexists.
  - intros e [= <-]. done.
Qed.

End ContextFacts.

(** C9, as stated, fails on the message: outside any provider the error
    thrown does not carry "must be used within a Provider". *)
Lemma useTableContext_message_differs :
  TableContext.useTableContext (Table := unit) (Update := unit) [] ≠
    TableContext.Throw {| TableContext.message := "must be used within a Provider" |}.
Proof. vm_compute. discriminate. Qed.

(** * Further properties *)

(** ** Row updates at any [rowIndex] *)
Section UpdateLaws.
Context {TData : Type}.
Implicit Types (prevData : Js.array TData) (rowIndex : Z) (r : TData).
Implicit Types (k : nat).

Lemma updateData_not_written prevData rowIndex r :
  ¬ Said.writes prevData rowIndex →
  TableRoot.updateData rowIndex r prevData = prevData.
Proof.
  unfold Said.writes. intros Hno.
  unfold TableRoot.updateData, Js.assign, Js.spread.
  destruct (Z.ltb_spec rowIndex 0); [done|].
  destruct (Z.ltb_spec rowIndex (Z.of_nat (length prevData))); [lia|].
  destruct (Z.ltb_spec rowIndex Js.MAX_ARRAY_INDEX); [lia|done].
Qed.

Lemma updateData_length prevData rowIndex r :
  length (TableRoot.updateData rowIndex r prevData) =
    if decide (Said.writes prevData rowIndex)
    then length prevData `max` (Z.to_nat rowIndex + 1)
    else length prevData.
Proof.
  case_decide as Hw.
  - destruct Hw as [Hnn Hw].
    destruct (Z.lt_ge_cases rowIndex (Z.of_nat (length prevData))).
    + rewrite updateData_inside, length_insert by lia. lia.
    + rewrite updateData_past_end, !length_app, length_replicate by lia.
      simpl. lia.
  - by rewrite updateData_not_written.
Qed.

Lemma updateData_lookup prevData rowIndex r k :
  TableRoot.updateData rowIndex r prevData !! k =
    if decide (Said.writes prevData rowIndex ∧ Z.of_nat k = rowIndex)
    then Some (Some r)
    else if decide (k < length prevData) then prevData !! k
    else if decide (Said.writes prevData rowIndex ∧ (Z.of_nat k < rowIndex)%Z)
    then Some None
    else None.
Proof.
  destruct (decide (Said.writes prevData rowIndex)) as [Hw|Hw].
  - destruct (Z.lt_ge_cases rowIndex (Z.of_nat (length prevData))).
    + unfold Said.writes in *. rewrite updateData_inside by lia.
      repeat case_decide; try lia.
      * assert (k = Z.to_nat rowIndex) as -> by lia.
        rewrite list_lookup_insert_eq by lia. done.
      * rewrite list_lookup_insert_ne by lia. done.
      * apply lookup_ge_None. rewrite length_insert. lia.
    + unfold Said.writes in *. rewrite updateData_past_end by lia.
      repeat case_decide; try lia.
      * rewrite lookup_app_r by lia.
        rewrite lookup_app_r by (rewrite length_replicate; lia).
        rewrite length_replicate.
        by replace (k - length prevData - (Z.to_nat rowIndex - length prevData))
          with 0 by lia.
      * by rewrite lookup_app_l by lia.
      * rewrite lookup_app_r by lia.
        rewrite lookup_app_l by (rewrite length_replicate; lia).
        apply lookup_replicate_2. lia.
      * apply lookup_ge_None.
        rewrite !length_app, length_replicate. simpl. lia.
  - rewrite updateData_not_written by done.
    repeat case_decide; try tauto.
    apply lookup_ge_None. lia.
Qed.

(** Two row sets are compared slot by slot, every read and length of an
    updated set being rewritten to the original. *)
Ltac compare_updates :=
  apply list_eq; intros ?;
  rewrite !updateData_lookup; unfold Said.writes;
  repeat case_decide;
  rewrite ?updateData_length in *; unfold Said.writes in *;
  repeat case_decide; try done; try lia.

(** X1. [updateData] gives back the row set it was given exactly when
    [rowIndex] names no slot the assignment writes (it is negative, or it is
    past the end and not an array index), or the row at [rowIndex] already
    is [r]. *)
Theorem updateData_unchanged_iff prevData rowIndex r :
  TableRoot.updateData rowIndex r prevData = prevData ↔
  ¬ Said.writes prevData rowIndex ∨
  ((0 ≤ rowIndex)%Z ∧ prevData !! Z.to_nat rowIndex = Some (Some r)).
Proof.
  split.
  - intros Heq. destruct (decide (Said.writes prevData rowIndex)) as [Hw|Hw];
      [right|by left].
    pose proof (updateData_length prevData rowIndex r) as Hlen.
    pose proof (updateData_lookup prevData rowIndex r (Z.to_nat rowIndex)) as Hat.
    rewrite Heq in Hlen, Hat. unfold Said.writes in *.
    repeat case_decide; try lia.
    split; [lia|]. by rewrite Hat.
  - intros [Hw|[Hnn Hat]]; [by apply updateData_not_written|].
    pose proof (lookup_lt_Some _ _ _ Hat).
    rewrite updateData_inside by lia. by apply list_insert_id.
Qed.

(** X2. Whatever [rowIndex] is, [updateData] never shortens the row set
    and never changes a row at a position other than [rowIndex]. *)
Theorem updateData_keeps_other_rows prevData rowIndex r :
  length prevData ≤ length (TableRoot.updateData rowIndex r prevData) ∧
  ∀ k, k < length prevData → Z.of_nat k ≠ rowIndex →
       TableRoot.updateData rowIndex r prevData !! k = prevData !! k.
Proof.
  split.
  - rewrite updateData_length. case_decide; lia.
  - intros k Hk Hne. rewrite updateData_lookup.
    repeat case_decide; try lia; tauto.
Qed.

(** X3. Of two updates of the same [rowIndex] the later one wins: the
    result is that of the later update alone. *)
Theorem updateData_last_write_wins prevData rowIndex r1 r2 :
  TableRoot.updateData rowIndex r2 (TableRoot.updateData rowIndex r1 prevData) =
    TableRoot.updateData rowIndex r2 prevData.
Proof. compare_updates. Qed.

(** X4. Updates of two different row indices give the same row set in
    either order. *)
Theorem updateData_commutes prevData rowIndex1 rowIndex2 r1 r2 :
  rowIndex1 ≠ rowIndex2 →
  TableRoot.updateData rowIndex1 r1 (TableRoot.updateData rowIndex2 r2 prevData) =
    TableRoot.updateData rowIndex2 r2 (TableRoot.updateData rowIndex1 r1 prevData).
Proof. intros Hne. compare_updates. Qed.

End UpdateLaws.

Lemma updateData_commutes_witness :
  TableRoot.updateData 4 7 (TableRoot.updateData 1 9 [Some 1; Some 2]) =
    TableRoot.updateData 1 9 (TableRoot.updateData 4 7 [Some 1; Some 2]).
Proof. apply updateData_commutes. discriminate. Defined.

(** ** Reordering keeps the columns *)
Section MovePermutes.
Context {A : Type}.
Implicit Types (arr : Js.array A) (i j k : nat).

Lemma arrayMove_Permutation arr (from to : Z) i :
  Js.splice_start (length arr) from = i → i < length arr →
  Dnd.arrayMove arr from to ≡ₚ arr.
Proof.
  intros Hs Hi. rewrite (arrayMove_unfold _ _ _ i) by done. simpl.
  destruct (lookup_lt_is_Some_2 arr i Hi) as [slot Hslot].
  unfold Js.get. rewrite Hslot.
  rewrite <- Permutation_middle, take_drop.
  symmetry. by apply delete_Permutation.
Qed.

(** [arrayMove] from [j] back to [i] takes back [arrayMove] from [i] to
    [j]. *)
Lemma arrayMove_back arr i j :
  i < length arr → j < length arr →
  Dnd.arrayMove (Dnd.arrayMove arr (Z.of_nat i) (Z.of_nat j))
    (Z.of_nat j) (Z.of_nat i) = arr.
Proof.
  intros Hi Hj.
  assert (length (Dnd.arrayMove arr (Z.of_nat i) (Z.of_nat j)) = length arr)
    as Hlen by (apply (arrayMove_length _ _ _ i); [apply splice_start_index|]; lia).
  apply list_eq. intros k.
  rewrite lookup_arrayMove by lia.
  repeat case_decide; rewrite lookup_arrayMove by lia;
    repeat case_decide; try lia; try done; f_equal; lia.
Qed.

End MovePermutes.

Section DragEndLaws.
Implicit Types (order : Js.array string) (event : Dnd.DragEndEvent).
Implicit Types (a o : Dnd.Item) (i j k : nat) (s : string).

Lemma handleDragEnd_Permutation event order :
  order ≠ [] → TableRoot.handleDragEnd event order ≡ₚ order.
Proof.
  intros Hne.
  assert (0 < length order) by (destruct order; [done|simpl; lia]).
  unfold TableRoot.handleDragEnd.
  destruct (Dnd.active event) as [a|], (Dnd.over event) as [o|]; try done.
  destruct (_ && _); [|done].
  destruct (indexOf_cases order (Dnd.id a)) as [->|(i & -> & Hi)].
  - apply (arrayMove_Permutation _ _ _ (length order - 1));
      [apply splice_start_last | lia].
  - apply (arrayMove_Permutation _ _ _ i); [apply splice_start_index; lia | done].
Qed.

(** A reserved id in the first place stays there when another id is
    dragged. *)
Lemma handleDragEnd_keeps_first event order s :
  order !! 0 = Some (Some s) → s ∈ TableRoot.reserved →
  (∀ a, Dnd.active event = Some a → Dnd.id a ≠ s) →
  TableRoot.handleDragEnd event order !! 0 = Some (Some s).
Proof.
  intros Hfirst Hres Hsrc.
  assert (0 < length order) by (by eapply lookup_lt_Some).
  unfold TableRoot.handleDragEnd.
  destruct (Dnd.active event) as [a|] eqn:Ha, (Dnd.over event) as [o|] eqn:Ho;
    try done.
  destruct (bool_decide _ && _) eqn:Hguard; [|done].
  apply andb_prop in Hguard as [Hdiff Hnot].
  apply negb_true_iff in Hnot.
  assert (Dnd.id o ≠ s) as Hos.
  { intros Heq. rewrite Heq in Hnot. apply includes_elem_of in Hres. congruence. }
  specialize (Hsrc a eq_refl).
  (* where the removal starts and where the insertion lands *)
  set (from := Js.indexOf order (Dnd.id a)).
  set (to := Js.indexOf order (Dnd.id o)).
  assert (∃ i, Js.splice_start (length order) from = i ∧ i < length order ∧
               (i = 0 → length order = 1)) as (i & Hi & Hilt & Hi0).
  { destruct (indexOf_cases order (Dnd.id a)) as [Hf|(i & Hf & Hlt)];
      fold from in Hf; rewrite Hf.
    - exists (length order - 1). rewrite splice_start_last. lia.
    - exists i. rewrite splice_start_index by lia.
      split; [done|]. split; [done|]. intros ->.
      apply indexOf_found in Hf as [Hf _]. congruence. }
  assert (to = (-1)%Z ∨ ∃ j, to = Z.of_nat j ∧ 0 < j < length order) as Hto.
  { destruct (indexOf_cases order (Dnd.id o)) as [Ht|(j & Ht & Hlt)];
      fold to in Ht; [by left|right].
    exists j. split; [done|]. split; [|done].
    destruct j; [|lia]. apply indexOf_found in Ht as [Ht _]. congruence. }
  rewrite (arrayMove_unfold _ _ _ i) by done. simpl.
  assert (length (delete i order) = length order - 1) as Hlen
    by (by apply length_delete, lookup_lt_is_Some_2).
  destruct (decide (i = 0)) as [->|Hi1].
  - (* the only column is the reserved one *)
    specialize (Hi0 eq_refl).
    destruct order as [|slot [|? ?]]; simpl in *; try lia.
    destruct Hto as [->|(j & _ & ?)]; [|lia]. simpl.
    unfold Js.get. simpl. done.
  - set (p := Js.splice_start _ _).
    assert (0 < p) as Hp.
    { subst p. destruct Hto as [->|(j & -> & Hj)].
      - simpl. unfold Js.splice_start.
        destruct (Z.ltb_spec (Z.of_nat (length order) + -1) 0); lia.
      - destruct (Z.ltb_spec (Z.of_nat j) 0); [lia|].
        unfold Js.splice_start.
        destruct (Z.ltb_spec (Z.of_nat j) 0); lia. }
    rewrite lookup_app_l by (rewrite length_take; lia).
    rewrite lookup_take_lt, list_lookup_delete_lt by lia. done.
Qed.

End DragEndLaws.

Section OrderLaws.
Context {TData Render Accessor : Type}.
Implicit Types (props : TableRoot.TableRootProps TData Render Accessor).
Implicit Types (st : TableRoot.State TData) (order : Js.array string).
Implicit Types (actions : list (TableRoot.Action TData)).

(** X5. From a non-empty column order, any sequence of row updates and
    drag-end events leaves a permutation of it: no entry is lost, doubled
    or made up. *)
Theorem run_columnOrder_Permutation st actions :
  TableRoot.columnOrder st ≠ [] →
  TableRoot.columnOrder (TableRoot.run st actions) ≡ₚ TableRoot.columnOrder st.
Proof.
  revert st. induction actions as [|action actions IH]; intros st Hne; [done|].
  unfold TableRoot.run in *. simpl.
  assert (TableRoot.columnOrder (TableRoot.dispatch st action) ≡ₚ
          TableRoot.columnOrder st) as Hstep.
  { destruct action; simpl; [done|]. by apply handleDragEnd_Permutation. }
  rewrite IH; [done|].
  intros Hnil. rewrite Hnil in Hstep.
  by apply Permutation_nil_l in Hstep.
Qed.

Lemma run_keeps_first st actions s :
  TableRoot.columnOrder st !! 0 = Some (Some s) → s ∈ TableRoot.reserved →
  Forall (λ action, ¬ Said.drags s action) actions →
  TableRoot.columnOrder (TableRoot.run st actions) !! 0 = Some (Some s).
Proof.
  intros Hfirst Hres Hquiet. revert st Hfirst.
  induction Hquiet as [|action actions Hno _ IH]; intros st Hfirst; [done|].
  unfold TableRoot.run in *. simpl. apply IH.
  destruct action as [rowIndex r|event]; simpl; [done|].
  apply handleDragEnd_keeps_first; [done..|].
  intros a Ha Hs. apply Hno. simpl. by rewrite Ha.
Qed.

(** X6. With reordering and selection or expansion enabled, the column
    order starts with the id of the synthetic column, a reserved id, and
    that id keeps the first place through any sequence of row updates and
    drag-end events in which it is not the one dragged. *)
Theorem synthetic_column_stays_first props :
  Js.truthy (TableRoot.enableColumnReorder props) = true →
  Js.truthy (TableRoot.enableSelection props)
    || Js.truthy (TableRoot.enableExpansion props) = true →
  ∃ s, s ∈ TableRoot.reserved ∧
       TableRoot.id <$> head (TableRoot.memoColumns_of props) = Some (Some s) ∧
       ∀ actions,
         Forall (λ action, ¬ Said.drags s action) actions →
         TableRoot.columnOrder (TableRoot.run (TableRoot.mount props) actions) !! 0
           = Some (Some s).
Proof.
  intros Hreorder Hflag.
  assert (∃ s, s ∈ TableRoot.reserved ∧ s ≠ "" ∧
               ∃ column, TableRoot.id column = Some s ∧
               TableRoot.memoColumns_of props = column :: TableRoot.columns props)
    as (s & Hres & Hs & column & Hid & Hmemo).
  { unfold TableRoot.memoColumns_of. rewrite memoColumns_cases.
    unfold TableRoot.reserved.
    destruct (Js.truthy (TableRoot.enableSelection props)),
             (Js.truthy (TableRoot.enableExpansion props)); try done.
    - exists "select-expand". split; [repeat constructor|]. split; [done|].
      by exists TableRoot.selectExpandColumn.
    - exists "select". split; [repeat constructor|]. split; [done|].
      by exists TableRoot.selectColumn.
    - exists "expand". split; [repeat constructor|]. split; [done|].
      by exists TableRoot.expandColumn. }
  exists s. split; [done|]. split; [by rewrite Hmemo; simpl; rewrite Hid|].
  intros actions Hquiet. apply run_keeps_first; [|done..].
  simpl. rewrite Hmemo. simpl. rewrite Hreorder, Hid. simpl.
  by destruct (String.eqb_spec s "").
Qed.

End OrderLaws.

Lemma run_columnOrder_Permutation_witness :
  let st : TableRoot.State nat :=
    {| TableRoot.tableData := [Some 1];
       TableRoot.columnOrder := [Some "name"; Some "age"; Some "email"] |} in
  let actions :=
    [TableRoot.DragEnd
       {| Dnd.active := Some {| Dnd.id := "email" |};
          Dnd.over := Some {| Dnd.id := "name" |} |};
     TableRoot.UpdateData 0 5;
     TableRoot.DragEnd
       {| Dnd.active := Some {| Dnd.id := "age" |};
          Dnd.over := Some {| Dnd.id := "ghost" |} |}] in
  TableRoot.columnOrder (TableRoot.run st actions) ≡ₚ TableRoot.columnOrder st.
Proof.
  apply (run_columnOrder_Permutation
           {| TableRoot.tableData := [Some 1];
              TableRoot.columnOrder := [Some "name"; Some "age"; Some "email"] |}).
  simpl. discriminate.
Defined.

Lemma synthetic_column_stays_first_witness :
  let props : TableRoot.TableRootProps nat unit unit :=
    {| TableRoot.data := [Some 1];
       TableRoot.columns :=
         [{| TableRoot.id := Some "name"; TableRoot.header := None;
             TableRoot.cell := None; TableRoot.enableSorting := None;
             TableRoot.enableHiding := None; TableRoot.accessor := None |}];
       TableRoot.enableSelection := Some true;
       TableRoot.enableExpansion := None;
       TableRoot.enableEditing := None;
       TableRoot.enableColumnReorder := Some true |} in
  ∃ s, s ∈ TableRoot.reserved ∧
       TableRoot.id <$> head (TableRoot.memoColumns_of props) = Some (Some s) ∧
       ∀ actions,
         Forall (λ action, ¬ Said.drags s action) actions →
         TableRoot.columnOrder (TableRoot.run (TableRoot.mount props) actions) !! 0
           = Some (Some s).
Proof.
  apply (synthetic_column_stays_first
           {| TableRoot.data := [Some 1];
              TableRoot.columns :=
                [{| TableRoot.id := Some "name"; TableRoot.header := None;
                    TableRoot.cell := None; TableRoot.enableSorting := None;
                    TableRoot.enableHiding := None;
                    TableRoot.accessor := None |}];
              TableRoot.enableSelection := Some true;
              TableRoot.enableExpansion := None;
              TableRoot.enableEditing := None;
              TableRoot.enableColumnReorder := Some true |});
    reflexivity.
Defined.

(** ** Finding columns in the column order *)
Section FindLaws.
Context {A : Type} `{EqDecision A}.
Implicit Types (arr : Js.array A) (x : A) (i j k : nat).

Lemma indexOf_NoDup arr x i :
  NoDup arr → arr !! i = Some (Some x) → Js.indexOf arr x = Z.of_nat i.
Proof.
  intros Hnd Hi. apply indexOf_found. split; [done|].
  intros k Hk Hat. pose proof (NoDup_lookup _ _ _ _ Hnd Hi Hat). lia.
Qed.

End FindLaws.

Section UndoLaws.
Implicit Types (order : Js.array string) (a o back : Dnd.Item) (i j : nat).

(** X8. In a column order without repeated entries, a drag of [a] onto [o]
    is undone by dragging [a] onto the column that now stands where [a]
    was, unless that column has a reserved id. *)
Theorem handleDragEnd_undo order (e1 e2 : Dnd.DragEndEvent) a o back i j :
  NoDup order →
  Dnd.active e1 = Some a → Dnd.over e1 = Some o →
  Dnd.id a ≠ Dnd.id o → Dnd.id o ∉ TableRoot.reserved →
  Js.indexOf order (Dnd.id a) = Z.of_nat i →
  Js.indexOf order (Dnd.id o) = Z.of_nat j →
  TableRoot.handleDragEnd e1 order !! i = Some (Some (Dnd.id back)) →
  Dnd.id back ∉ TableRoot.reserved →
  Dnd.active e2 = Some a → Dnd.over e2 = Some back →
  TableRoot.handleDragEnd e2 (TableRoot.handleDragEnd e1 order) = order.
Proof.
  intros Hnd Ha1 Ho1 Hne Hres Hi Hj Hback Hres2 Ha2 Ho2.
  rewrite (handleDragEnd_reorders e1 _ a o), Hi, Hj in * by done.
  apply indexOf_found in Hi as [Hi _]. apply indexOf_found in Hj as [Hj _].
  assert (i < length order) by (by eapply lookup_lt_Some).
  assert (j < length order) by (by eapply lookup_lt_Some).
  set (moved := Dnd.arrayMove order (Z.of_nat i) (Z.of_nat j)) in *.
  assert (NoDup moved) as Hnd'.
  { assert (moved ≡ₚ order) as ->; [|done].
    apply (arrayMove_Permutation _ _ _ i); [apply splice_start_index; lia|done]. }
  assert (moved !! j = Some (Some (Dnd.id a))) as Hja.
  { subst moved. rewrite lookup_arrayMove by done. by rewrite decide_True. }
  assert (i ≠ j) as Hij by (intros ->; congruence).
  assert (Dnd.id a ≠ Dnd.id back) as Hne2.
  { intros Heq. rewrite <- Heq in Hback.
    by pose proof (NoDup_lookup _ _ _ _ Hnd' Hback Hja). }
  rewrite (handleDragEnd_reorders e2 _ a back) by done.
  rewrite (indexOf_NoDup moved (Dnd.id a) j), (indexOf_NoDup moved (Dnd.id back) i)
    by done.
  by apply arrayMove_back.
Qed.

End UndoLaws.

Lemma handleDragEnd_undo_witness :
  let e1 :=
    {| Dnd.active := Some {| Dnd.id := "name" |};
       Dnd.over := Some {| Dnd.id := "email" |} |} in
  let e2 :=
    {| Dnd.active := Some {| Dnd.id := "name" |};
       Dnd.over := Some {| Dnd.id := "age" |} |} in
  let order := [Some "name"; Some "age"; Some "email"; Some "city"] in
  TableRoot.handleDragEnd e2 (TableRoot.handleDragEnd e1 order) = order.
Proof.
  apply (handleDragEnd_undo
           [Some "name"; Some "age"; Some "email"; Some "city"] _ _
           {| Dnd.id := "name" |} {| Dnd.id := "email" |} {| Dnd.id := "age" |}
           0 2);
    try reflexivity;
    try (unfold TableRoot.reserved; simpl; not_in_literals).
  - repeat (apply NoDup_cons; split; [not_in_literals|]). apply NoDup_nil_2.
  - simpl. discriminate.
Defined.

Section ColumnLaws.
Context {Render Accessor : Type}.
Implicit Types (columns memo : list (TableRoot.ColumnDef Render Accessor)).
Implicit Types (column : TableRoot.ColumnDef Render Accessor).
Implicit Types (flag : option bool) (s : string) (k : nat).

(** X7. When selection or expansion is enabled, the augmented list is one
    control column followed by the caller's columns, unchanged and in their
    order; the control column's id is one of those [handleDragEnd] refuses
    as a drop target, and its sorting and hiding are switched off. *)
Theorem memoColumns_prepends_control_column columns
    (enableSelection enableExpansion : option bool) :
  Js.truthy enableSelection || Js.truthy enableExpansion = true →
  ∃ control s,
    TableRoot.memoColumns columns enableSelection enableExpansion
      = control :: columns ∧
    TableRoot.id control = Some s ∧
    Js.includes TableRoot.reserved s = true ∧
    s = (if Js.truthy enableSelection
         then if Js.truthy enableExpansion then "select-expand" else "select"
         else "expand") ∧
    TableRoot.enableSorting control = Some false ∧
    TableRoot.enableHiding control = Some false.
Proof.
  intros Hflag. rewrite memoColumns_cases.
  destruct (Js.truthy enableSelection), (Js.truthy enableExpansion);
    try done; eexists _, _; repeat split.
Qed.

(** X9. With reordering enabled, a column that declares a non-empty id is
    found by [indexOf] in the initial column order at the column's own
    position, provided no column before it declares the same id. *)
Theorem columnOrder_init_finds_column memo flag column s k :
  Js.truthy flag = true →
  memo !! k = Some column → TableRoot.id column = Some s → s ≠ "" →
  (∀ k' column', k' < k → memo !! k' = Some column' →
                 TableRoot.id column' ≠ Some s) →
  Js.indexOf (TableRoot.columnOrder_init memo flag) s = Z.of_nat k.
Proof.
  intros Hflag Hk Hid Hs Hfirst.
  assert (∀ c : TableRoot.ColumnDef Render Accessor, TableRoot.id c = Some s ↔
               (if Js.truthy flag && Js.truthy_string (TableRoot.id c)
                then TableRoot.id c else Some "") = Some s) as Hentry.
  { intros c. rewrite Hflag. simpl.
    destruct (TableRoot.id c) as [declared|]; simpl.
    - destruct (String.eqb_spec declared "") as [->|]; simpl; [|done].
      split; congruence.
    - split; congruence. }
  apply indexOf_found. unfold TableRoot.columnOrder_init. split.
  - rewrite list_lookup_fmap, Hk. simpl. f_equal. by apply Hentry.
  - intros k' Hk'. rewrite list_lookup_fmap.
    destruct (memo !! k') as [column'|] eqn:Hk''; simpl; [|done].
    intros [= Heq]. apply Hentry in Heq. by eapply Hfirst.
Qed.

End ColumnLaws.

Lemma memoColumns_prepends_control_column_witness :
  ∃ (control : TableRoot.ColumnDef unit unit) s,
    TableRoot.memoColumns [] None (Some true) = control :: [] ∧
    TableRoot.id control = Some s ∧
    Js.includes TableRoot.reserved s = true ∧
    s = "expand" ∧
    TableRoot.enableSorting control = Some false ∧
    TableRoot.enableHiding control = Some false.
Proof.
  apply (memoColumns_prepends_control_column [] None (Some true)).
  reflexivity.
Defined.

Lemma columnOrder_init_finds_column_witness :
  let name : TableRoot.ColumnDef unit unit :=
    {| TableRoot.id := Some "name"; TableRoot.header := None;
       TableRoot.cell := None; TableRoot.enableSorting := None;
       TableRoot.enableHiding := None; TableRoot.accessor := None |} in
  let age : TableRoot.ColumnDef unit unit :=
    {| TableRoot.id := Some "age"; TableRoot.header := None;
       TableRoot.cell := None; TableRoot.enableSorting := None;
       TableRoot.enableHiding := None; TableRoot.accessor := None |} in
  Js.indexOf (TableRoot.columnOrder_init [name; age] (Some true)) "age"
    = Z.of_nat 1.
Proof.
  intros name age.
  apply (columnOrder_init_finds_column [name; age] (Some true) age "age" 1);
    [reflexivity | reflexivity | reflexivity | discriminate |].
  intros [|[|k']] column' Hlt; [|lia..]. simpl. intros [= <-]. discriminate.
Defined.

(** ** What [TableRoot] renders *)
Section RenderLaws.
Context {TData Render Accessor Table Children : Type}.
Implicit Types (props : TableRoot.TableRootProps TData Render Accessor).
Implicit Types (st : TableRoot.State TData) (table : Table).
Implicit Types (children : Children).
Implicit Types (actions : list (TableRoot.Action TData)).

(** In both branches of the [return] the children render directly inside
    one [TableProvider]. *)
Lemma children_scope_TableRoot props st table children
    (here : TableContext.scope Table Rendered.Update) :
  Rendered.children_scope (Rendered.TableRoot props st table children) here =
    TableContext.TableProvider table TableRoot.updateData
      (TableRoot.enableEditing props) (TableRoot.enableColumnReorder props)
      (Some (TableRoot.columnOrder st)) here.
Proof.
  unfold Rendered.TableRoot.
  by destruct (Js.truthy (TableRoot.enableColumnReorder props)).
Qed.

(** X10. Whether or not reordering is enabled, and whatever providers
    enclose the [TableRoot], its children consume the context without an
    error and get the root's engine instance, its [updateData], its
    editing and reordering flags and its current column order. *)
Theorem TableRoot_children_context props st table children
    (here : TableContext.scope Table Rendered.Update) :
  TableContext.useTableContext
    (Rendered.children_scope (Rendered.TableRoot props st table children) here)
  = TableContext.Return
      {| TableContext.table := table;
         TableContext.updateData := TableRoot.updateData;
         TableContext.enableEditing := TableRoot.enableEditing props;
         TableContext.enableColumnReorder := TableRoot.enableColumnReorder props;
         TableContext.columnOrder := Some (TableRoot.columnOrder st) |}.
Proof. by rewrite children_scope_TableRoot. Qed.

Lemma handle_with_reorder props table children st action :
  Js.truthy (TableRoot.enableColumnReorder props) = true →
  Rendered.handle props table children st action = TableRoot.dispatch st action.
Proof.
  intros Hon. destruct action as [rowIndex r|event]; simpl.
  - by rewrite children_scope_TableRoot.
  - unfold Rendered.TableRoot. by rewrite Hon.
Qed.


(** X11. With reordering enabled, a mounted [TableRoot] answers row updates
    made through the context and drags ending inside it exactly as
    [updateData] and [handleDragEnd] prescribe. *)
Theorem session_with_reorder props table children actions :
  Js.truthy (TableRoot.enableColumnReorder props) = true →
  Rendered.session props table children actions =
    TableRoot.run (TableRoot.mount props) actions.
Proof.
  intros Hon. unfold Rendered.session, TableRoot.run.
  generalize (TableRoot.mount props).
  induction actions as [|action actions IH]; intros st; simpl; [done|].
  by rewrite handle_with_reorder, IH.
Qed.


End RenderLaws.

Lemma session_with_reorder_witness :
  Rendered.session (Example_.props (Some true)) tt tt
    Example_.actions =
  TableRoot.run (TableRoot.mount (Example_.props (Some true)))
    Example_.actions.
Proof. apply session_with_reorder. reflexivity. Defined.


(** ** Columns without a declared id *)
Section UndeclaredIds.
Context {Render Accessor : Type}.
Implicit Types (memo : list (TableRoot.ColumnDef Render Accessor)).

Lemma columnOrder_init_undeclared memo (flag : option bool) :
  Forall (λ column, Js.truthy_string (TableRoot.id column) = false) memo →
  TableRoot.columnOrder_init memo flag = replicate (length memo) (Some "").
Proof.
  unfold TableRoot.columnOrder_init.
  induction 1 as [|column memo Hcol _ IH]; simpl; [done|].
  by rewrite Hcol, andb_false_r, IH.
Qed.

(** X13. When no augmented column declares a non-empty id, the initial
    column order is one empty string per column even with reordering
    enabled, and a drag-end event whose source and target ids are not empty
    leaves it as it is: such columns cannot be reordered. *)
Theorem undeclared_ids_are_not_reordered memo (flag : option bool)
    (event : Dnd.DragEndEvent) :
  memo ≠ [] →
  Forall (λ column, Js.truthy_string (TableRoot.id column) = false) memo →
  (∀ a, Dnd.active event = Some a → Dnd.id a ≠ "") →
  (∀ o, Dnd.over event = Some o → Dnd.id o ≠ "") →
  let order := TableRoot.columnOrder_init memo flag in
  order = replicate (length memo) (Some "") ∧
  TableRoot.handleDragEnd event order = order.
Proof.
  intros Hne Hnone Hsrc Htgt order. subst order.
  rewrite columnOrder_init_undeclared by done. split; [done|].
  set (order := replicate (length memo) (Some "")).
  assert (order ≠ []) as Hne' by (subst order; destruct memo; done).
  assert (∀ s : string, s ≠ "" → Some s ∉ order) as Hout.
  { intros s Hs Hin. subst order.
    apply elem_of_replicate in Hin as [[= ->] _]. done. }
  destruct (Dnd.active event) as [a|] eqn:Ha, (Dnd.over event) as [o|] eqn:Ho;
    try (unfold TableRoot.handleDragEnd; rewrite Ha, ?Ho; done).
  destruct (decide (Dnd.id o ∈ TableRoot.reserved)) as [Hres|Hres].
  - unfold TableRoot.handleDragEnd. rewrite Ha, Ho.
    apply includes_elem_of in Hres. by rewrite Hres, andb_false_r.
  - destruct (handleDragEnd_target_absent order event a o) as [Hsame _];
      auto.
Qed.

End UndeclaredIds.

Lemma undeclared_ids_are_not_reordered_witness :
  let order :=
    TableRoot.columnOrder_init
      [Example_.accessor_column; Example_.accessor_column] (Some true) in
  order = replicate 2 (Some "") ∧
  TableRoot.handleDragEnd (Example_.drag "name" "age") order = order.
Proof.
  apply (undeclared_ids_are_not_reordered
           [Example_.accessor_column; Example_.accessor_column] (Some true)
           (Example_.drag "name" "age")).
  - discriminate.
  - repeat constructor.
  - intros a [= <-]. discriminate.
  - intros o [= <-]. discriminate.
Defined.
